(** * LCD_Display: the wrapper class of SpineTester/LCD.hpp

    The class owns one [LiquidCrystal_I2C] driver object and offers a handful
    of methods that call into it.  The driver library and the C library
    ([vsnprintf]) are not part of the repository: the driver is an interface
    (a type class) here, the formatter behind [vsnprintf] a parameter, and
    the wrapper is embedded over both.  Every call that leaves the wrapper is
    recorded in a trace, so that what the wrapper hands to the driver, and in
    which order, can be stated. *)

From Stdlib Require Import ZArith String Ascii List DecimalString Lia.
From stdpp Require Import base option list strings gmap.

Local Open Scope Z_scope.
Local Open Scope string_scope.
Local Open Scope list_scope.

(** ** C characters, arrays and strings *)

(** [char]: one byte.  The terminator of a C string. *)
Definition NUL : ascii := Ascii.zero.

(** A [char] array in memory.  A cell that was never written holds an
    indeterminate value ([None]).  An access outside the array, or a read of
    an indeterminate cell, has no defined behaviour: the operations below
    return [None] for it. *)
Abbreviation carray := (list (option ascii)).

(** [char a[n];] without initialiser. *)
Definition uninitialized (n : nat) : carray := replicate n None.

(** [a[i] = c] *)
Definition poke (i : nat) (c : ascii) (a : carray) : option carray :=
  if decide (i < length a)%nat then Some (<[i := Some c]> a) else None.

(** [a[i] = cs[0]; a[i+1] = cs[1]; ...] *)
Fixpoint store_chars (i : nat) (cs : list ascii) (a : carray) : option carray :=
  match cs with
  | [] => Some a
  | c :: cs' =>
      match poke i c a with
      | Some a' => store_chars (S i) cs' a'
      | None => None
      end
  end.

(** What a reader of the C string starting at the array sees: the characters
    up to the first [NUL]. *)
Fixpoint c_str (a : carray) : option string :=
  match a with
  | [] => None
  | None :: _ => None
  | Some c :: rest =>
      if decide (c = NUL) then Some EmptyString
      else match c_str rest with
           | Some s => Some (String c s)
           | None => None
           end
  end.

(** The characters of a list before its first [NUL], as a string. *)
Fixpoint until_nul (cs : list ascii) : string :=
  match cs with
  | [] => EmptyString
  | c :: cs' => if decide (c = NUL) then EmptyString else String c (until_nul cs')
  end.

(** ** The C library: [vsnprintf] *)

(** The variable arguments of a call, after the default promotions: an [int]
    (also for a [char]) or a pointer to a C string. *)
Inductive va_arg : Type :=
  | va_int (n : Z)
  | va_str (s : string).

Abbreviation va_list := (list va_arg).

(** A formatter turns a format string and its arguments into the complete
    output, before any truncation.  How directives are expanded is the C
    library's business. *)
Abbreviation formatter := (string -> va_list -> list ascii).

(** [vsnprintf(s, n, format, ap)] after ISO C 7.21.6.12: the output is
    produced as by [printf]; characters beyond the [n-1]st are discarded
    rather than written to the array, and a null character is written at the
    end of the characters actually written.  With [n = 0] nothing is written.
    The value returned is the number of characters that would have been
    written had [n] been large enough, not counting the terminator. *)
Definition vsnprintf (vformat : formatter)
    (s : carray) (n : nat) (format : string) (ap : va_list) : option (carray * Z) :=
  let out := vformat format ap in
  match n with
  | O => Some (s, Z.of_nat (length out))
  | S m =>
      match store_chars 0 (take m out ++ [NUL]) s with
      | Some s' => Some (s', Z.of_nat (length out))
      | None => None
      end
  end.

(** A reference formatter for the directives [%d], [%c], [%s] and [%%], used
    to run the wrapper on concrete calls.  A directive it does not know, or
    one whose argument is missing or of the wrong kind, is copied as it is. *)
Definition decimal (n : Z) : list ascii :=
  list_ascii_of_string (NilZero.string_of_int (Z.to_int n)).

Fixpoint expand (format : list ascii) (ap : va_list) : list ascii :=
  match format with
  | [] => []
  | c :: rest =>
      if decide (c = "%"%char) then
        match rest with
        | [] => [c]
        | d :: rest' =>
            if decide (d = "%"%char) then "%"%char :: expand rest' ap
            else match ap with
                 | va_int n :: ap' =>
                     if decide (d = "d"%char) then decimal n ++ expand rest' ap'
                     else if decide (d = "c"%char)
                          then ascii_of_N (Z.to_N (n mod 256)) :: expand rest' ap'
                          else c :: d :: expand rest' ap
                 | va_str s :: ap' =>
                     if decide (d = "s"%char)
                     then list_ascii_of_string s ++ expand rest' ap'
                     else c :: d :: expand rest' ap
                 | [] => c :: d :: expand rest' ap
                 end
        end
      else c :: expand rest ap
  end.

Definition printf_reference : formatter :=
  fun format ap => expand (list_ascii_of_string format) ap.

(** ** The driver library: [LiquidCrystal_I2C] *)

(** The member functions of the driver that the wrapper calls, as
    transformers of the driver object.  Each receives the values of the
    argument expressions at the call; the driver's own declarations (its
    parameter types, its return values, which the wrapper never looks at)
    belong to the library. *)
Class LiquidCrystal_I2C (D : Type) : Type := {
  lcd_new : Z -> Z -> Z -> D;        (* LiquidCrystal_I2C(addr, cols, rows) *)
  lcd_init : D -> D;                 (* init() *)
  lcd_backlight : D -> D;            (* backlight() *)
  lcd_setCursor : Z -> Z -> D -> D;  (* setCursor(col, row) *)
  lcd_print : string -> D -> D;      (* print(const char* ) *)
  lcd_clear : D -> D;                (* clear() *)
  lcd_write : ascii -> D -> D        (* write(char) *)
}.

(** One call on the driver object, with its arguments. *)
Inductive Call : Type :=
  | c_construct (addr cols rows : Z)
  | c_init
  | c_backlight
  | c_setCursor (col row : Z)
  | c_print (message : string)
  | c_clear
  | c_write (character : ascii).

(** A call that leaves the wrapper: into the C library or into the driver. *)
Inductive Event : Type :=
  | ev_vsnprintf (n : nat) (format : string) (ap : va_list)
  | ev_lcd (c : Call).

Definition lcd_calls (tr : list Event) : list Call :=
  omap (fun e => match e with ev_lcd c => Some c | ev_vsnprintf _ _ _ => None end) tr.

Definition apply_call `{LiquidCrystal_I2C D} (c : Call) (d : D) : D :=
  match c with
  | c_construct addr cols rows => lcd_new addr cols rows
  | c_init => lcd_init d
  | c_backlight => lcd_backlight d
  | c_setCursor col row => lcd_setCursor col row d
  | c_print message => lcd_print message d
  | c_clear => lcd_clear d
  | c_write character => lcd_write character d
  end.

Definition replay `{LiquidCrystal_I2C D} (cs : list Call) (d : D) : D :=
  foldl (fun d c => apply_call c d) d cs.

(** ** The wrapper class *)

Section LCD_Display.

Context {D : Type} `{!LiquidCrystal_I2C D}.
Variable vformat : formatter.

(** An [int] parameter is an integer ([Z]): the methods do no arithmetic on
    their [int] parameters, so no width and no wrap-around comes into play,
    and a statement for every integer covers every [int].  A
    [const char*] parameter is the C string it points to. *)

(** [class LCD_Display { private: LiquidCrystal_I2C lcd; ... }] *)
Record LCD_Display : Type := { lcd : D }.

(** The state a method runs in: the object it is called on and the trace of
    the calls made so far. *)
Record State : Type := { this : LCD_Display; calls : list Event }.

(** A method body: from the state to a result and the next state, or [None]
    where the behaviour is not defined. *)
Definition M (A : Type) : Type := State -> option (A * State).

Definition ret {A} (a : A) : M A := fun st => Some (a, st).

Definition bind {A B} (m : M A) (k : A -> M B) : M B :=
  fun st => match m st with
            | Some (a, st') => k a st'
            | None => None
            end.

Notation "x <- m ;; k" := (bind m (fun x => k))
  (at level 100, m at next level, right associativity).
Notation "m ;; k" := (bind m (fun _ => k))
  (at level 100, right associativity).

(** [lcd.f(args)]: the call goes into the trace and the member is updated by
    the driver. *)
Definition on_lcd (c : Call) : M unit :=
  fun st => Some (tt, {| this := {| lcd := apply_call c (lcd (this st)) |};
                         calls := calls st ++ [ev_lcd c] |}).

(** [vsnprintf(s, n, format, ap)] on a local array: the call goes into the
    trace; the array after the call and the value returned are the result. *)
Definition call_vsnprintf (s : carray) (n : nat) (format : string) (ap : va_list)
    : M (carray * Z) :=
  fun st => match vsnprintf vformat s n format ap with
            | Some r => Some (r, {| this := this st;
                                    calls := calls st ++ [ev_vsnprintf n format ap] |})
            | None => None
            end.

(** An array handed over as [const char*]: the callee reads the C string. *)
Definition as_c_str (a : carray) : M string :=
  fun st => match c_str a with
            | Some s => Some (s, st)
            | None => None
            end.

(** [LCD_Display() : lcd(0x27, 20, 4) {}] *)
Definition LCD_Display_new : State :=
  {| this := {| lcd := lcd_new 0x27 20 4 |};
     calls := [ev_lcd (c_construct 0x27 20 4)] |}.

(** [LiquidCrystal_I2C get_lcd() { return lcd; }] *)
Definition get_lcd : M D :=
  fun st => Some (lcd (this st), st).

Definition init_display : M unit :=
  on_lcd c_init ;;
  on_lcd c_backlight.

(** [void print(int x, int y, const char* message)] *)
Definition print_xy (x y : Z) (message : string) : M unit :=
  on_lcd (c_setCursor x y) ;;
  on_lcd (c_print message).

Definition clear : M unit :=
  on_lcd c_clear.

Definition set_cursor (x y : Z) : M unit :=
  on_lcd (c_setCursor x y).

(** [void print(const char* message)] *)
Definition print (message : string) : M unit :=
  on_lcd (c_print message).

Definition writeString (x y : Z) (format : string) (args : va_list) : M unit :=
  let buffer := uninitialized 128 in
  r <- call_vsnprintf buffer (length buffer) format args ;;
  let buffer := fst r in
  on_lcd (c_setCursor x y) ;;
  message <- as_c_str buffer ;;
  on_lcd (c_print message).

Definition write (character : ascii) : M unit :=
  on_lcd (c_write character).

(** The public member functions, with the arguments of a call. *)
Inductive Method : Type :=
  | m_get_lcd
  | m_init_display
  | m_print_xy (x y : Z) (message : string)
  | m_clear
  | m_set_cursor (x y : Z)
  | m_print (message : string)
  | m_writeString (x y : Z) (format : string) (args : va_list)
  | m_write (character : ascii).

(** What a call hands back: nothing ([void]) or a driver object. *)
Inductive Returned : Type :=
  | r_void
  | r_lcd (d : D).

Definition void (m : M unit) : M Returned := m ;; ret r_void.

Definition invoke (m : Method) : M Returned :=
  match m with
  | m_get_lcd => d <- get_lcd ;; ret (r_lcd d)
  | m_init_display => void init_display
  | m_print_xy x y message => void (print_xy x y message)
  | m_clear => void clear
  | m_set_cursor x y => void (set_cursor x y)
  | m_print message => void (print message)
  | m_writeString x y format args => void (writeString x y format args)
  | m_write character => void (write character)
  end.

(** A sequence of calls on one object. *)
Fixpoint invoke_all (ms : list Method) (st : State) : option State :=
  match ms with
  | [] => Some st
  | m :: ms' =>
      match invoke m st with
      | Some (_, st') => invoke_all ms' st'
      | None => None
      end
  end.

(** The events a call adds to the trace. *)
Definition issued (m : Method) (st : State) : list Event :=
  match invoke m st with
  | Some (_, st') => drop (length (calls st)) (calls st')
  | None => []
  end.

(** *** Objects in memory

    The wrapper object and the driver objects that exist next to it (a
    temporary returned by value, a local of the caller), each at its own
    address. *)

Inductive object : Type :=
  | obj_wrapper (w : LCD_Display)
  | obj_driver (d : D).

Record World : Type := { heap : gmap positive object; trace : list Event }.

(** [self->m(...)].  A [LiquidCrystal_I2C] returned by value is a new object:
    it is copied from the operand of [return] to an address not in use. *)
Definition call_method (self : positive) (m : Method) (w : World)
    : option (option positive * World) :=
  match heap w !! self with
  | Some (obj_wrapper o) =>
      match invoke m {| this := o; calls := trace w |} with
      | Some (r, st') =>
          let h := <[self := obj_wrapper (this st')]> (heap w) in
          match r with
          | r_void => Some (None, {| heap := h; trace := calls st' |})
          | r_lcd d =>
              let a := fresh (dom h) in
              Some (Some a, {| heap := <[a := obj_driver d]> h; trace := calls st' |})
          end
      | None => None
      end
  | _ => None
  end.

(** Any change [f] made to the driver object at address [a]. *)
Definition mutate (a : positive) (f : D -> D) (w : World) : option World :=
  match heap w !! a with
  | Some (obj_driver d) =>
      Some {| heap := <[a := obj_driver (f d)]> (heap w); trace := trace w |}
  | _ => None
  end.

Fixpoint mutate_all (a : positive) (fs : list (D -> D)) (w : World) : option World :=
  match fs with
  | [] => Some w
  | f :: fs' =>
      match mutate a f w with
      | Some w' => mutate_all a fs' w'
      | None => None
      end
  end.

End LCD_Display.

Arguments LCD_Display D : clear implicits.
Arguments State D : clear implicits.
Arguments M D A : clear implicits.
Arguments Returned D : clear implicits.
Arguments object D : clear implicits.
Arguments World D : clear implicits.

(** ** A reference driver

    A display that keeps what it was told: its configuration, the backlight,
    the cursor and the characters written, each with its position.  It stands
    in for the library when the wrapper is run on concrete calls. *)

Record SimLCD : Type := {
  sim_addr : Z;
  sim_cols : Z;
  sim_rows : Z;
  sim_lit : bool;
  sim_col : Z;
  sim_row : Z;
  sim_cells : list (Z * Z * ascii)
}.

Definition sim_put (c : ascii) (d : SimLCD) : SimLCD :=
  {| sim_addr := sim_addr d; sim_cols := sim_cols d; sim_rows := sim_rows d;
     sim_lit := sim_lit d; sim_col := sim_col d + 1; sim_row := sim_row d;
     sim_cells := sim_cells d ++ [(sim_col d, sim_row d, c)] |}.

Definition sim_home (lit : bool) (d : SimLCD) : SimLCD :=
  {| sim_addr := sim_addr d; sim_cols := sim_cols d; sim_rows := sim_rows d;
     sim_lit := lit; sim_col := 0; sim_row := 0; sim_cells := [] |}.

#[export] Instance SimLCD_driver : LiquidCrystal_I2C SimLCD := {|
  lcd_new addr cols rows :=
    {| sim_addr := addr; sim_cols := cols; sim_rows := rows;
       sim_lit := false; sim_col := 0; sim_row := 0; sim_cells := [] |};
  lcd_init d := sim_home false d;
  lcd_backlight d :=
    {| sim_addr := sim_addr d; sim_cols := sim_cols d; sim_rows := sim_rows d;
       sim_lit := true; sim_col := sim_col d; sim_row := sim_row d;
       sim_cells := sim_cells d |};
  lcd_setCursor col row d :=
    {| sim_addr := sim_addr d; sim_cols := sim_cols d; sim_rows := sim_rows d;
       sim_lit := sim_lit d; sim_col := col; sim_row := row;
       sim_cells := sim_cells d |};
  lcd_print message d := foldl (fun d c => sim_put c d) d (list_ascii_of_string message);
  lcd_clear d := sim_home (sim_lit d) d;
  lcd_write character d := sim_put character d
|}.

Definition sim_config (d : SimLCD) : Z * Z * Z := (sim_addr d, sim_cols d, sim_rows d).

(** ** What is observed of a call *)

(** The text that reaches the display from a formatted write: the first 127
    characters of the formatter's output, read as a C string. *)
Definition shown (vformat : formatter) (format : string) (args : va_list) : string :=
  until_nul (take 127 (vformat format args)).

(** Argument values, of the wrapper's methods and of the driver's. *)
Inductive value : Type :=
  | v_int (n : Z)
  | v_str (s : string)
  | v_char (c : ascii).

Definition va_value (a : va_arg) : value :=
  match a with
  | va_int n => v_int n
  | va_str s => v_str s
  end.

(** The arguments a method was called with, in order. *)
Definition received (m : Method) : list value :=
  match m with
  | m_get_lcd | m_init_display | m_clear => []
  | m_print_xy x y message => [v_int x; v_int y; v_str message]
  | m_set_cursor x y => [v_int x; v_int y]
  | m_print message => [v_str message]
  | m_writeString x y format args => [v_int x; v_int y; v_str format] ++ (va_value <$> args)
  | m_write character => [v_char character]
  end.

(** The arguments of a driver call, in order. *)
Definition call_args (c : Call) : list value :=
  match c with
  | c_construct addr cols rows => [v_int addr; v_int cols; v_int rows]
  | c_init | c_backlight | c_clear => []
  | c_setCursor col row => [v_int col; v_int row]
  | c_print message => [v_str message]
  | c_write character => [v_char character]
  end.

(** All argument values handed to the driver in a trace, in order. *)
Definition passed (tr : list Event) : list value :=
  concat (call_args <$> lcd_calls tr).

Definition is_construct (c : Call) : bool :=
  match c with
  | c_construct _ _ _ => true
  | _ => false
  end.

(** A driver keeps the configuration it was constructed with: [config] reads
    it off the driver object, the constructor stores it and no other member
    function changes it. *)
Class ConfigStable {D : Type} `{!LiquidCrystal_I2C D} (config : D -> Z * Z * Z) : Prop := {
  config_new addr cols rows : config (lcd_new addr cols rows) = (addr, cols, rows);
  config_init d : config (lcd_init d) = config d;
  config_backlight d : config (lcd_backlight d) = config d;
  config_setCursor col row d : config (lcd_setCursor col row d) = config d;
  config_print message d : config (lcd_print message d) = config d;
  config_clear d : config (lcd_clear d) = config d;
  config_write character d : config (lcd_write character d) = config d
}.

(** The state reached from [st] when the driver calls [cs] were made on the
    member and the events [evs] went into the trace. *)
Definition after {D : Type} `{!LiquidCrystal_I2C D}
    (cs : list Call) (evs : list Event) (st : State D) : State D :=
  {| this := {| lcd := replay cs (lcd (this st)) |}; calls := calls st ++ evs |}.

(** The calls each method makes, read off its body. *)
Definition calls_of (vformat : formatter) (m : Method) : list Event :=
  match m with
  | m_get_lcd => []
  | m_init_display => [ev_lcd c_init; ev_lcd c_backlight]
  | m_print_xy x y message => [ev_lcd (c_setCursor x y); ev_lcd (c_print message)]
  | m_clear => [ev_lcd c_clear]
  | m_set_cursor x y => [ev_lcd (c_setCursor x y)]
  | m_print message => [ev_lcd (c_print message)]
  | m_writeString x y format args =>
      [ev_vsnprintf 128 format args; ev_lcd (c_setCursor x y);
       ev_lcd (c_print (shown vformat format args))]
  | m_write character => [ev_lcd (c_write character)]
  end.

(** What each method returns. *)
Definition result_of {D : Type} (m : Method) (st : State D) : Returned D :=
  match m with
  | m_get_lcd => r_lcd (lcd (this st))
  | _ => r_void
  end.

(** ** The interface *)

(** The public member functions as the class declares them. *)
Definition signature (m : Method) : string :=
  match m with
  | m_get_lcd => "get_lcd()"
  | m_init_display => "init_display()"
  | m_print_xy _ _ _ => "print(x,y,msg)"
  | m_clear => "clear()"
  | m_set_cursor _ _ => "set_cursor(x,y)"
  | m_print _ => "print(msg)"
  | m_writeString _ _ _ _ => "writeString(x,y,format,...)"
  | m_write _ => "write(char)"
  end.

(** The operations the specification lists as the whole interface. *)
Definition spec_operations : list string :=
  ["init_display()"; "print(x,y,msg)"; "print(msg)"; "clear()";
   "set_cursor(x,y)"; "writeString(x,y,format,...)"; "write(char)"].


(** ** Sample inputs *)

(** A format of 130 plain characters, without any directive. *)
Definition long_plain_format : string :=
  string_of_list_ascii (replicate 130 "a"%char).

(** A memory that holds one freshly constructed wrapper, at address 1. *)
Definition world0 : World SimLCD :=
  {| heap := {[ 1%positive := obj_wrapper (this LCD_Display_new) ]};
     trace := calls (LCD_Display_new (D := SimLCD)) |}.

(** * Properties *)

(** ** Arrays and C strings *)

Section Arrays.

Implicit Types (a : carray) (cs : list ascii) (i : nat).

Lemma poke_length i c a a' : poke i c a = Some a' -> length a' = length a.
Proof.
  unfold poke. case_decide; [|done].
  intros [= <-]. apply length_insert.
Qed.

(** Writing never changes the size of the array. *)
Lemma store_chars_length cs : forall i a a',
  store_chars i cs a = Some a' -> length a' = length a.
Proof.
  induction cs as [|c cs IH]; intros i a a'; simpl.
  - by intros [= <-].
  - destruct (poke i c a) as [a1|] eqn:Hp; [|done].
    intros Hs. rewrite (IH _ _ _ Hs). eauto using poke_length.
Qed.

(** Characters that fit are written in place. *)
Lemma store_chars_fits cs : forall i a,
  (i + length cs <= length a)%nat ->
  store_chars i cs a = Some (take i a ++ (Some <$> cs) ++ drop (i + length cs) a).
Proof.
  induction cs as [|c cs IH]; intros i a Hlen; simpl in *.
  - by rewrite Nat.add_0_r, take_drop.
  - unfold poke. rewrite decide_True by lia.
    rewrite IH by (rewrite length_insert; lia).
    f_equal.
    rewrite (take_S_r _ _ (Some c)) by (apply list_lookup_insert_eq; lia).
    rewrite take_insert_ge by lia.
    rewrite drop_insert_lt by lia.
    rewrite <- app_assoc. simpl. repeat f_equal. lia.
Qed.

(** Characters that do not fit are an access outside the array. *)
Lemma store_chars_overflow cs : forall i a,
  (i <= length a < i + length cs)%nat -> store_chars i cs a = None.
Proof.
  induction cs as [|c cs IH]; intros i a Hlen; simpl in *; [lia|].
  unfold poke. case_decide; [|done].
  apply IH. rewrite length_insert. lia.
Qed.

Lemma c_str_terminated cs : forall a,
  c_str ((Some <$> cs) ++ Some NUL :: a) = Some (until_nul cs).
Proof.
  induction cs as [|c cs IH]; intros a.
  - done.
  - cbn [fmap list_fmap app c_str until_nul].
    case_decide; [done|]. by rewrite IH.
Qed.

Lemma until_nul_length cs : (String.length (until_nul cs) <= length cs)%nat.
Proof.
  induction cs as [|c cs IH]; simpl; [lia|].
  case_decide; simpl; lia.
Qed.

(** Without a [NUL] among them the characters are read back as they are. *)
Lemma until_nul_all cs : NUL ∉ cs -> until_nul cs = string_of_list_ascii cs.
Proof.
  induction cs as [|c cs IH]; simpl; [done|].
  intros Hn. apply not_elem_of_cons in Hn as [Hc Hcs].
  rewrite decide_False by done. by rewrite IH.
Qed.

(** The string read ends at a [NUL] that lies inside the array. *)
Lemma c_str_nul a s :
  c_str a = Some s -> a !! String.length s = Some (Some NUL).
Proof.
  revert s. induction a as [|[c|] a IH]; intros s; simpl; try done.
  case_decide as Hc.
  - intros [= <-]. simpl. by rewrite Hc.
  - destruct (c_str a) as [s'|]; [|done].
    intros [= <-]. simpl. by apply IH.
Qed.

(** [vsnprintf] with a bound that the array can hold. *)
Lemma vsnprintf_fits (vformat : formatter) a m format ap :
  (S m <= length a)%nat ->
  vsnprintf vformat a (S m) format ap =
    Some ((Some <$> take m (vformat format ap)) ++
            Some NUL :: drop (S (length (take m (vformat format ap)))) a,
          Z.of_nat (length (vformat format ap))).
Proof.
  intros Hlen. unfold vsnprintf.
  rewrite store_chars_fits.
  - simpl. rewrite fmap_app, <- app_assoc, length_app. simpl.
    repeat f_equal. lia.
  - rewrite length_app, length_take. simpl. lia.
Qed.

(** [vsnprintf] with a bound larger than the array writes outside it as soon
    as the output is long enough. *)
Lemma vsnprintf_overflow (vformat : formatter) a m format ap :
  (length a <= length (vformat format ap))%nat -> (length a <= m)%nat ->
  vsnprintf vformat a (S m) format ap = None.
Proof.
  intros Hout Hm. unfold vsnprintf.
  rewrite store_chars_overflow; [done|].
  rewrite length_app, length_take. simpl. lia.
Qed.

End Arrays.

(** ** The reference driver keeps its configuration *)

Lemma sim_put_config c d : sim_config (sim_put c d) = sim_config d.
Proof. done. Qed.

Lemma sim_print_config cs : forall d,
  sim_config (foldl (fun d c => sim_put c d) d cs) = sim_config d.
Proof.
  induction cs as [|c cs IH]; intros d; simpl; [done|].
  by rewrite IH, sim_put_config.
Qed.

#[export] Instance SimLCD_ConfigStable : ConfigStable sim_config.
Proof.
  split; try done.
  intros message d. apply sim_print_config.
Qed.

(** ** The methods, one by one *)

Section Methods.

Context {D : Type} `{!LiquidCrystal_I2C D}.
Variable vformat : formatter.

Implicit Types (st : State D) (x y : Z) (message format : string) (args : va_list).

Lemma init_display_run st :
  init_display st = Some (tt, after [c_init; c_backlight] [ev_lcd c_init; ev_lcd c_backlight] st).
Proof. unfold init_display, bind, on_lcd, after. simpl. by rewrite <- app_assoc. Qed.

Lemma print_xy_run x y message st :
  print_xy x y message st =
    Some (tt, after [c_setCursor x y; c_print message]
                    [ev_lcd (c_setCursor x y); ev_lcd (c_print message)] st).
Proof. unfold print_xy, bind, on_lcd, after. simpl. by rewrite <- app_assoc. Qed.

Lemma clear_run st : clear st = Some (tt, after [c_clear] [ev_lcd c_clear] st).
Proof. done. Qed.

Lemma set_cursor_run x y st :
  set_cursor x y st = Some (tt, after [c_setCursor x y] [ev_lcd (c_setCursor x y)] st).
Proof. done. Qed.

Lemma print_run message st :
  print message st = Some (tt, after [c_print message] [ev_lcd (c_print message)] st).
Proof. done. Qed.

Lemma write_run character st :
  write character st = Some (tt, after [c_write character] [ev_lcd (c_write character)] st).
Proof. done. Qed.

Lemma get_lcd_run st : get_lcd st = Some (lcd (this st), st).
Proof. done. Qed.

(** The local array of [writeString] after the call of [vsnprintf]. *)
Lemma writeString_buffer format args :
  vsnprintf vformat (uninitialized 128) 128 format args =
    Some ((Some <$> take 127 (vformat format args)) ++
            Some NUL :: replicate (127 - length (take 127 (vformat format args))) None,
          Z.of_nat (length (vformat format args))).
Proof.
  rewrite vsnprintf_fits by (unfold uninitialized; rewrite length_replicate; lia).
  unfold uninitialized. rewrite drop_replicate. done.
Qed.

Lemma writeString_run x y format args st :
  writeString vformat x y format args st =
    Some (tt, after [c_setCursor x y; c_print (shown vformat format args)]
                    [ev_vsnprintf 128 format args; ev_lcd (c_setCursor x y);
                     ev_lcd (c_print (shown vformat format args))] st).
Proof.
  unfold writeString, bind, call_vsnprintf, as_c_str.
  replace (length (uninitialized 128)) with 128%nat
    by (unfold uninitialized; by rewrite length_replicate).
  rewrite writeString_buffer. cbn [fst on_lcd].
  rewrite c_str_terminated. unfold on_lcd, after, shown. simpl.
  by rewrite <- !app_assoc.
Qed.

(** The array after formatting: 128 bytes, holding a C string. *)
Lemma formatted_array format args :
  exists (buffer : carray) (n : Z),
    vsnprintf vformat (uninitialized 128) 128 format args = Some (buffer, n) /\
    length buffer = 128%nat /\
    c_str buffer = Some (shown vformat format args).
Proof.
  eexists _, _. split; [apply writeString_buffer|]. split.
  - rewrite length_app, length_fmap. simpl. rewrite length_replicate, length_take. lia.
  - apply c_str_terminated.
Qed.

(** Every method returns, with the calls of [calls_of] made in order and
    nothing else changed. *)
Lemma invoke_run (m : Method) st :
  invoke vformat m st =
    Some (result_of m st, after (lcd_calls (calls_of vformat m)) (calls_of vformat m) st).
Proof.
  destruct m; unfold invoke, void, bind, ret.
  - rewrite get_lcd_run. unfold after. simpl. rewrite app_nil_r.
    by destruct st as [[d] tr].
  - by rewrite init_display_run.
  - by rewrite print_xy_run.
  - by rewrite clear_run.
  - by rewrite set_cursor_run.
  - by rewrite print_run.
  - by rewrite writeString_run.
  - by rewrite write_run.
Qed.

Lemma issued_calls_of (m : Method) st : issued vformat m st = calls_of vformat m.
Proof.
  unfold issued. rewrite invoke_run. unfold after. simpl.
  by rewrite drop_app_length.
Qed.

Lemma replay_app (cs1 cs2 : list Call) (d : D) :
  replay (cs1 ++ cs2) d = replay cs2 (replay cs1 d).
Proof. unfold replay. by rewrite foldl_app. Qed.

Lemma lcd_calls_app (tr1 tr2 : list Event) :
  lcd_calls (tr1 ++ tr2) = lcd_calls tr1 ++ lcd_calls tr2.
Proof. unfold lcd_calls. by rewrite omap_app. Qed.

(** A sequence of calls always runs to its end. *)
Lemma invoke_all_run (ms : list Method) : forall st,
  exists st', invoke_all vformat ms st = Some st' /\
    this st' = {| lcd := replay (lcd_calls (drop (length (calls st)) (calls st')))
                                (lcd (this st)) |} /\
    take (length (calls st)) (calls st') = calls st.
Proof.
  induction ms as [|m ms IH]; intros st; simpl.
  - exists st. split; [done|]. rewrite drop_all, take_ge by done.
    split; [|done]. by destruct st as [[d] tr].
  - rewrite invoke_run.
    destruct (IH (after (lcd_calls (calls_of vformat m)) (calls_of vformat m) st))
      as (st' & Hrun & Hthis & Htake).
    exists st'. split; [done|].
    unfold after in Hthis, Htake. simpl in Hthis, Htake.
    assert (Hsplit : calls st' =
              (calls st ++ calls_of vformat m) ++
              drop (length (calls st ++ calls_of vformat m)) (calls st')).
    { rewrite <- Htake at 1. by rewrite take_drop. }
    split.
    + rewrite Hthis. f_equal. rewrite <- replay_app, <- lcd_calls_app. do 2 f_equal.
      rewrite Hsplit at 2. rewrite <- app_assoc. by rewrite drop_app_length.
    + rewrite Hsplit, <- app_assoc. by rewrite take_app_length.
Qed.

End Methods.

(** ** Printing at a position *)

Section Claims.

Context {D : Type} `{!LiquidCrystal_I2C D}.
Variable vformat : formatter.

Implicit Types (st : State D) (x y : Z) (message format : string) (args : va_list).

(** C2. For every [x], [y] and [message], [print(x, y, message)] calls the
    driver's [setCursor] with exactly [(x, y)] and then the driver's [print]
    with exactly [message]; it makes no other call, returns, and leaves the
    member as these two driver calls leave it. *)
Theorem print_xy_forwards x y message st :
  print_xy x y message st =
    Some (tt, {| this := {| lcd := lcd_print message (lcd_setCursor x y (lcd (this st))) |};
                 calls := calls st ++ [ev_lcd (c_setCursor x y); ev_lcd (c_print message)] |}).
Proof. by rewrite print_xy_run. Qed.

(** ** Formatted writes *)

(** C3. For every [x], [y], format and arguments, [writeString] first has
    [vsnprintf] format the arguments into its 128-byte array (the first 127
    characters of the output and a terminator), and only then calls the
    driver: [setCursor(x, y)], then [print] of the C string in the array. *)
Theorem writeString_formats_then_displays x y format args st :
  exists (buffer : carray) (n : Z),
    vsnprintf vformat (uninitialized 128) 128 format args = Some (buffer, n) /\
    length buffer = 128%nat /\
    take (S (length (take 127 (vformat format args)))) buffer =
      (Some <$> take 127 (vformat format args)) ++ [Some NUL] /\
    c_str buffer = Some (shown vformat format args) /\
    writeString vformat x y format args st =
      Some (tt, {| this := {| lcd := lcd_print (shown vformat format args)
                                       (lcd_setCursor x y (lcd (this st))) |};
                   calls := calls st ++
                     [ev_vsnprintf 128 format args;
                      ev_lcd (c_setCursor x y);
                      ev_lcd (c_print (shown vformat format args))] |}).
Proof.
  eexists _, _. split; [apply writeString_buffer|].
  repeat split.
  - rewrite length_app, length_fmap. simpl. rewrite length_replicate, length_take. lia.
  - rewrite (cons_middle (Some NUL)), app_assoc.
    apply take_app_length'. rewrite length_app, length_fmap. simpl. lia.
  - apply c_str_terminated.
  - by rewrite writeString_run.
Qed.

(** C10. For every format and arguments, what [writeString] hands to the
    driver's [print] is a C string of at most 127 characters, terminated
    inside the array; every write of [vsnprintf] stays inside the 128 bytes,
    and the call runs to its end. *)
Theorem writeString_buffer_safe x y format args st :
  exists (buffer : carray) (n : Z) (text : string),
    vsnprintf vformat (uninitialized 128) 128 format args = Some (buffer, n) /\
    length buffer = 128%nat /\
    c_str buffer = Some text /\
    (String.length text <= 127)%nat /\
    buffer !! String.length text = Some (Some NUL) /\
    exists st', writeString vformat x y format args st = Some (tt, st') /\
      lcd_calls (drop (length (calls st)) (calls st')) = [c_setCursor x y; c_print text].
Proof.
  destruct (formatted_array vformat format args)
    as (buffer & n & Hv & Hlen & Hstr).
  exists buffer, n, (shown vformat format args).
  split; [done|]. split; [done|]. split; [done|]. split.
  - unfold shown. etrans; [apply until_nul_length|]. rewrite length_take. lia.
  - split; [by apply c_str_nul|].
    eexists. split; [apply writeString_run|].
    unfold after. simpl. by rewrite drop_app_length.
Qed.

(** C5. When the formatted output does not fit the 128-byte array, the C
    library reports the full length, and [writeString] drops that value: it
    prints the text cut to 127 characters and returns [void] like any other
    call.  The object it leaves and the driver calls it makes are those of
    [print(x, y, text)] with the cut text, so nothing tells the caller that
    characters were lost. *)
Theorem truncation_silent x y format args st :
  (128 <= length (vformat format args))%nat ->
  exists (buffer : carray) (n : Z) (text : string) (st' : State D),
    vsnprintf vformat (uninitialized 128) 128 format args = Some (buffer, n) /\
    128 <= n /\
    c_str buffer = Some text /\
    text = until_nul (take 127 (vformat format args)) /\
    (String.length text < length (vformat format args))%nat /\
    writeString vformat x y format args st = Some (tt, st') /\
    lcd_calls (drop (length (calls st)) (calls st')) = [c_setCursor x y; c_print text] /\
    exists st'', print_xy x y text st = Some (tt, st'') /\
      this st' = this st'' /\
      lcd_calls (calls st') = lcd_calls (calls st'').
Proof.
  intros Hlong.
  destruct (formatted_array vformat format args) as (buffer & n & Hv & _ & Hstr).
  eexists buffer, n, (shown vformat format args), _.
  split; [done|]. split.
  { rewrite writeString_buffer in Hv. injection Hv as _ <-. lia. }
  split; [done|]. split; [done|]. split.
  { unfold shown. eapply Nat.le_lt_trans; [apply until_nul_length|].
    rewrite length_take. lia. }
  split; [apply writeString_run|]. split.
  { unfold after. simpl. by rewrite drop_app_length. }
  eexists. split; [apply print_xy_run|].
  unfold after. simpl. split; [done|].
  by rewrite !lcd_calls_app.
Qed.

(** ** Cursor coordinates *)

(** C4. For every [x] and [y], inside the 20 by 4 grid or not, [set_cursor],
    [print(x, y, message)] and [writeString] call the driver's [setCursor]
    with [x] and [y] as they are, and return normally. *)
Theorem cursor_not_checked x y message format args st :
  set_cursor x y st =
    Some (tt, {| this := {| lcd := lcd_setCursor x y (lcd (this st)) |};
                 calls := calls st ++ [ev_lcd (c_setCursor x y)] |}) /\
  print_xy x y message st =
    Some (tt, {| this := {| lcd := lcd_print message (lcd_setCursor x y (lcd (this st))) |};
                 calls := calls st ++ [ev_lcd (c_setCursor x y); ev_lcd (c_print message)] |}) /\
  writeString vformat x y format args st =
    Some (tt, {| this := {| lcd := lcd_print (shown vformat format args)
                                     (lcd_setCursor x y (lcd (this st))) |};
                 calls := calls st ++
                   [ev_vsnprintf 128 format args;
                    ev_lcd (c_setCursor x y);
                    ev_lcd (c_print (shown vformat format args))] |}).
Proof.
  split; [done|]. split; [by rewrite print_xy_run|by rewrite writeString_run].
Qed.

(** ** Forwarding *)

(** C1, as amended.  Every method other than [writeString] hands to the
    driver exactly the argument values it received, in order, and nothing
    else; [writeString] hands over [x] and [y] as received and, in place of
    the format and its arguments, the formatted text cut to 127 characters. *)
Theorem forwarding_except_format (m : Method) st :
  match m with
  | m_writeString x y format args =>
      passed (issued vformat m st) =
        [v_int x; v_int y; v_str (until_nul (take 127 (vformat format args)))]
  | _ => passed (issued vformat m st) = received m
  end.
Proof. rewrite issued_calls_of. by destruct m. Qed.

(** ** Configuration *)

Lemma config_apply_call (config : D -> Z * Z * Z) `{!ConfigStable config} (c : Call) (d : D) :
  is_construct c = false -> config (apply_call c d) = config d.
Proof.
  destruct c; simpl; try done; intros _;
    auto using config_init, config_backlight, config_setCursor, config_print,
      config_clear, config_write.
Qed.

Lemma config_replay (config : D -> Z * Z * Z) `{!ConfigStable config} (cs : list Call) :
  forall d, forallb (fun c => negb (is_construct c)) cs = true ->
    config (replay cs d) = config d.
Proof.
  induction cs as [|c cs IH]; intros d; simpl; [done|].
  intros [Hc Hcs]%andb_prop. unfold replay in *. simpl.
  rewrite IH by done. apply config_apply_call; [done|].
  by destruct (is_construct c).
Qed.

Lemma calls_of_no_construct (m : Method) :
  forallb (fun c => negb (is_construct c)) (lcd_calls (calls_of vformat m)) = true.
Proof. by destruct m. Qed.

(** C6. The constructor hands address 0x27, 20 columns and 4 rows to the
    driver.  No method constructs the driver again, and on a driver that
    keeps the configuration it was constructed with, every method, and so
    every sequence of calls from construction on, leaves it at
    (0x27, 20, 4). *)
Theorem configuration_fixed (config : D -> Z * Z * Z) `{!ConfigStable config} :
  calls (LCD_Display_new (D := D)) = [ev_lcd (c_construct 0x27 20 4)] /\
  config (lcd (this LCD_Display_new)) = (0x27, 20, 4) /\
  (forall (m : Method) st,
     forallb (fun c => negb (is_construct c)) (lcd_calls (issued vformat m st)) = true /\
     exists r st', invoke vformat m st = Some (r, st') /\
       config (lcd (this st')) = config (lcd (this st))) /\
  (forall ms : list Method,
     exists st', invoke_all vformat ms LCD_Display_new = Some st' /\
       config (lcd (this st')) = (0x27, 20, 4)).
Proof.
  split; [done|]. split; [apply config_new|].
  assert (Hone : forall (m : Method) st,
            exists r st', invoke vformat m st = Some (r, st') /\
              config (lcd (this st')) = config (lcd (this st))).
  { intros m st. eexists _, _. split; [apply invoke_run|].
    unfold after. simpl. apply config_replay; [done|]. apply calls_of_no_construct. }
  split.
  - intros m st. split; [|apply Hone].
    rewrite issued_calls_of. apply calls_of_no_construct.
  - intros ms.
    assert (Hall : forall st, exists st', invoke_all vformat ms st = Some st' /\
              config (lcd (this st')) = config (lcd (this st))).
    { induction ms as [|m ms IH]; intros st; simpl; [by exists st|].
      destruct (Hone m st) as (r & st1 & -> & Hc1).
      destruct (IH st1) as (st' & -> & Hc). exists st'. split; [done|]. congruence. }
    destruct (Hall LCD_Display_new) as (st' & Hrun & Hc).
    exists st'. split; [done|]. rewrite Hc. apply config_new.
Qed.

End Claims.

(** ** Objects in memory *)

Section Memory.

Context {D : Type} `{!LiquidCrystal_I2C D}.
Variable vformat : formatter.

Implicit Types (w : World D) (o : LCD_Display D) (self a : positive).

Lemma mutate_all_frame (fs : list (D -> D)) : forall w a (d : D),
  heap w !! a = Some (obj_driver d) ->
  exists w', mutate_all a fs w = Some w' /\
    heap w' !! a = Some (obj_driver (foldl (fun d f => f d) d fs)) /\
    trace w' = trace w /\
    forall b, b ≠ a -> heap w' !! b = heap w !! b.
Proof.
  induction fs as [|f fs IH]; intros w a d Ha; simpl.
  - by exists w.
  - unfold mutate. rewrite Ha.
    edestruct (IH {| heap := <[a := obj_driver (f d)]> (heap w); trace := trace w |} a (f d))
      as (w' & Hrun & Hat & Htr & Hframe).
    { simpl. apply lookup_insert_eq. }
    exists w'. split; [done|]. split; [done|]. split; [done|].
    intros b Hb. rewrite Hframe by done. simpl. by apply lookup_insert_ne.
Qed.

(** The call of [get_lcd] in memory. *)
Lemma get_lcd_in_memory self o w :
  heap w !! self = Some (obj_wrapper o) ->
  exists a w',
    call_method vformat self m_get_lcd w = Some (Some a, w') /\
    a ≠ self /\
    heap w !! a = None /\
    heap w' !! self = Some (obj_wrapper o) /\
    heap w' !! a = Some (obj_driver (lcd o)) /\
    trace w' = trace w /\
    forall b, b ≠ self -> b ≠ a -> heap w' !! b = heap w !! b.
Proof.
  intros Hself. unfold call_method. rewrite Hself, invoke_run. simpl.
  remember (<[self := obj_wrapper {| lcd := lcd o |}]> (heap w)) as h eqn:Hh.
  pose proof (is_fresh (dom h)) as Hfresh.
  assert (Hne : fresh (dom h) ≠ self).
  { intros Heq. rewrite Heq in Hfresh. apply Hfresh.
    subst h. rewrite dom_insert_L. set_solver. }
  apply not_elem_of_dom in Hfresh.
  eexists _, _. split; [done|]. simpl. split; [done|]. split.
  { subst h. by rewrite lookup_insert_ne in Hfresh. }
  split.
  { rewrite lookup_insert_ne by done. subst h. rewrite lookup_insert_eq. by destruct o. }
  split; [apply lookup_insert_eq|]. split; [by rewrite app_nil_r|].
  intros b Hb Hba. rewrite lookup_insert_ne by done. subst h. by apply lookup_insert_ne.
Qed.

(** C8. The wrapper object is its [lcd] member and nothing more.  A call of
    any method on the object at [self] returns; afterwards that object is the
    old one with the driver calls of the method applied to its [lcd] member,
    and every other object that existed is as it was (a driver object
    returned by value is new, at an address that held nothing). *)
Theorem effects_confined_to_lcd self o (m : Method) w :
  heap w !! self = Some (obj_wrapper o) ->
  o = {| lcd := lcd o |} /\
  exists (r : option positive) w',
    call_method vformat self m w = Some (r, w') /\
    heap w' !! self =
      Some (obj_wrapper {| lcd := replay (lcd_calls (calls_of vformat m)) (lcd o) |}) /\
    trace w' = trace w ++ calls_of vformat m /\
    (forall a, a ≠ self -> Some a ≠ r -> heap w' !! a = heap w !! a) /\
    (forall a, Some a = r -> heap w !! a = None).
Proof.
  intros Hself. split; [by destruct o|].
  unfold call_method. rewrite Hself, invoke_run.
  destruct m; simpl;
    try (eexists None, _; split; [done|]; simpl;
         split; [apply lookup_insert_eq|];
         split; [done|]; split; [|done];
         intros a Ha _; by apply lookup_insert_ne).
  destruct (get_lcd_in_memory self o w Hself)
    as (a & w' & Hcall & Hne & Hnone & Hs & Ha & Htr & Hframe).
  unfold call_method in Hcall. rewrite Hself, invoke_run in Hcall. simpl in Hcall.
  exists (Some a), w'. split; [done|]. split; [by destruct o|].
  split; [by rewrite app_nil_r|]. split.
  - intros b Hb Hr. apply Hframe; [done|]. intros ->. by apply Hr.
  - by intros b [= ->].
Qed.

(** C9. [get_lcd()] hands back a copy.  The call makes no driver call and
    leaves the wrapper as it was; the object returned is a new one, equal to
    the [lcd] member, and whatever is done to it afterwards, the wrapper and
    its member stay as they were. *)
Theorem get_lcd_returns_copy self o w :
  heap w !! self = Some (obj_wrapper o) ->
  get_lcd {| this := o; calls := trace w |} = Some (lcd o, {| this := o; calls := trace w |}) /\
  exists a w',
    call_method vformat self m_get_lcd w = Some (Some a, w') /\
    a ≠ self /\
    heap w' !! self = Some (obj_wrapper o) /\
    heap w' !! a = Some (obj_driver (lcd o)) /\
    trace w' = trace w /\
    forall fs : list (D -> D),
      exists w'', mutate_all a fs w' = Some w'' /\
        heap w'' !! a = Some (obj_driver (foldl (fun d f => f d) (lcd o) fs)) /\
        heap w'' !! self = Some (obj_wrapper o).
Proof.
  intros Hself. split; [done|].
  destruct (get_lcd_in_memory self o w Hself)
    as (a & w' & Hcall & Hne & _ & Hs & Ha & Htr & _).
  exists a, w'. repeat (split; [done|]).
  intros fs. destruct (mutate_all_frame fs w' a (lcd o) Ha) as (w'' & Hrun & Hat & _ & Hframe).
  exists w''. split; [done|]. split; [done|]. by rewrite Hframe.
Qed.

End Memory.

(** ** The interface *)

(** C7, as stated, fails: [get_lcd()] is a public member function and is not
    among the operations listed. *)
Lemma interface_counterexample :
  ~ (forall m : Method, signature m ∈ spec_operations).
Proof.
  intros Hall. specialize (Hall m_get_lcd).
  unfold spec_operations in Hall. simpl in Hall.
  repeat (apply elem_of_cons in Hall as [Heq|Hall]; [discriminate Heq|]).
  by apply elem_of_nil in Hall.
Qed.

(** C7, as amended.  The public member functions are the seven operations
    listed and [get_lcd()]: every one of them is in that list, and every
    entry of the list is a member function. *)
Theorem interface_with_get_lcd :
  (forall m : Method, signature m ∈ "get_lcd()" :: spec_operations) /\
  Forall (fun s => exists m : Method, signature m = s) ("get_lcd()" :: spec_operations).
Proof.
  split.
  - intros m. unfold spec_operations. destruct m; simpl; set_solver.
  - unfold spec_operations. repeat apply Forall_cons_2; [..|apply Forall_nil_2].
    + by exists m_get_lcd.
    + by exists m_init_display.
    + by exists (m_print_xy 0 0 "").
    + by exists (m_print "").
    + by exists m_clear.
    + by exists (m_set_cursor 0 0).
    + by exists (m_writeString 0 0 "" []).
    + by exists (m_write NUL).
Qed.

(** ** The wrapper on the reference driver *)

(** Coordinates far outside the grid reach the driver as they are. *)
Example set_cursor_outside_grid :
  invoke printf_reference (m_set_cursor (-5) 300) LCD_Display_new =
    Some (r_void,
          {| this := {| lcd := lcd_setCursor (-5) 300 (lcd_new (D := SimLCD) 39 20 4) |};
             calls := [ev_lcd (c_construct 39 20 4); ev_lcd (c_setCursor (-5) 300)] |}).
Proof. reflexivity. Qed.

(** A formatted write: the display gets the expanded text. *)
Example writeString_expands :
  issued (D := SimLCD) printf_reference
    (m_writeString 3 1 "v=%d %s%%" [va_int (-42); va_str "ok"]) LCD_Display_new =
    [ev_vsnprintf 128 "v=%d %s%%" [va_int (-42); va_str "ok"];
     ev_lcd (c_setCursor 3 1); ev_lcd (c_print "v=-42 ok%")].
Proof. reflexivity. Qed.

(** A bound of 129 on the same 128-byte array would let a long output run
    over its end: the bound [sizeof(buffer)] is what keeps the write inside. *)
Example larger_bound_overflows :
  vsnprintf printf_reference (uninitialized 128) 129 long_plain_format [] = None.
Proof. reflexivity. Qed.

(** C1, as stated, fails: [writeString(0, 0, "%d", 42)] hands the text "42"
    to the driver, not the format and the number it received. *)
Lemma forwarding_counterexample :
  ~ (forall (m : Method) (st : State SimLCD),
       passed (issued printf_reference m st) = received m).
Proof.
  intros Hall.
  specialize (Hall (m_writeString 0 0 "%d" [va_int 42]) LCD_Display_new).
  vm_compute in Hall. discriminate Hall.
Qed.

(** A format of 130 plain characters is cut to 127 on the display. *)
Lemma truncation_silent_witness :
  (128 <= length (printf_reference long_plain_format []))%nat /\
  exists st' : State SimLCD,
    writeString printf_reference 0 0 long_plain_format [] LCD_Display_new = Some (tt, st') /\
    lcd_calls (drop (length (calls (LCD_Display_new (D := SimLCD)))) (calls st')) =
      [c_setCursor 0 0;
       c_print (until_nul (take 127 (printf_reference long_plain_format [])))].
Proof.
  assert (Hlong : (128 <= length (printf_reference long_plain_format []))%nat)
    by (vm_compute; lia).
  split; [exact Hlong|].
  destruct (truncation_silent printf_reference 0 0 long_plain_format []
              (LCD_Display_new (D := SimLCD)) Hlong)
    as (buffer & n & text & st' & _ & _ & _ & Htext & _ & Hrun & Hcalls & _).
  exists st'. split; [exact Hrun|]. rewrite <- Htext. exact Hcalls.
Defined.

(** The reference driver keeps (0x27, 20, 4) through a sequence of calls. *)
Lemma configuration_fixed_witness :
  ConfigStable sim_config /\
  exists st' : State SimLCD,
    invoke_all printf_reference
      [m_init_display; m_writeString (-1) 7 "%d" [va_int 5]; m_clear] LCD_Display_new
      = Some st' /\
    sim_config (lcd (this st')) = (0x27, 20, 4).
Proof.
  split; [exact SimLCD_ConfigStable|].
  destruct (configuration_fixed printf_reference sim_config) as (_ & _ & _ & Hall).
  apply Hall.
Defined.

(** A call of [print(25, -3, "hi")] on the wrapper at address 1. *)
Lemma effects_confined_to_lcd_witness :
  heap world0 !! 1%positive = Some (obj_wrapper (this LCD_Display_new)) /\
  exists (r : option positive) (w' : World SimLCD),
    call_method printf_reference 1 (m_print_xy 25 (-3) "hi") world0 = Some (r, w') /\
    heap w' !! 1%positive =
      Some (obj_wrapper
              {| lcd := replay [c_setCursor 25 (-3); c_print "hi"] (lcd_new 0x27 20 4) |}).
Proof.
  assert (Hself : heap world0 !! 1%positive = Some (obj_wrapper (this LCD_Display_new)))
    by reflexivity.
  split; [exact Hself|].
  destruct (effects_confined_to_lcd printf_reference 1 _ (m_print_xy 25 (-3) "hi") world0 Hself)
    as (_ & r & w' & Hcall & Hobj & _).
  exists r, w'. split; [exact Hcall|exact Hobj].
Defined.

(** Clearing and printing on the copy leaves the wrapper at address 1 alone. *)
Lemma get_lcd_returns_copy_witness :
  heap world0 !! 1%positive = Some (obj_wrapper (this LCD_Display_new)) /\
  exists (a : positive) (w' : World SimLCD),
    call_method printf_reference 1 m_get_lcd world0 = Some (Some a, w') /\
    a ≠ 1%positive /\
    exists w'' : World SimLCD,
      mutate_all a [lcd_clear; lcd_print "x"] w' = Some w'' /\
      heap w'' !! 1%positive = Some (obj_wrapper (this LCD_Display_new)).
Proof.
  assert (Hself : heap world0 !! 1%positive = Some (obj_wrapper (this LCD_Display_new)))
    by reflexivity.
  split; [exact Hself|].
  destruct (get_lcd_returns_copy printf_reference 1 _ world0 Hself)
    as (_ & a & w' & Hcall & Hne & _ & _ & _ & Hmut).
  exists a, w'. split; [exact Hcall|]. split; [exact Hne|].
  destruct (Hmut [lcd_clear; lcd_print "x"]) as (w'' & Hrun & _ & Hobj).
  exists w''. split; [exact Hrun|exact Hobj].
Defined.

(** ** How calls compose *)

Section Composition.

Context {D : Type} `{!LiquidCrystal_I2C D}.
Variable vformat : formatter.

Implicit Types (st : State D) (x y : Z) (message format : string) (args : va_list).

Lemma after_nil st : after [] [] st = st.
Proof. destruct st as [[d] tr]. unfold after. simpl. by rewrite app_nil_r. Qed.

Lemma after_after (cs1 cs2 : list Call) (evs1 evs2 : list Event) st :
  after cs2 evs2 (after cs1 evs1 st) = after (cs1 ++ cs2) (evs1 ++ evs2) st.
Proof. unfold after. simpl. by rewrite replay_app, app_assoc. Qed.

Lemma invoke_all_closed (ms : list Method) : forall st,
  invoke_all vformat ms st =
    Some (after (lcd_calls (concat (calls_of vformat <$> ms)))
                (concat (calls_of vformat <$> ms)) st).
Proof.
  induction ms as [|m ms IH]; intros st; simpl.
  - by rewrite after_nil.
  - rewrite invoke_run, IH, after_after. by rewrite lcd_calls_app.
Qed.

(** X1. A positioned write is a cursor move followed by a plain print:
    [print(x, y, message)] is [set_cursor(x, y)] then [print(message)], and
    [writeString(x, y, format, ...)] leaves the object and the driver calls
    of [set_cursor(x, y)] then [print(text)], with [text] the formatted
    output cut to 127 characters. *)
Theorem positioned_writes_decompose x y message format args st :
  print_xy x y message st = bind (set_cursor x y) (fun _ => print message) st /\
  exists st1 st2 : State D,
    writeString vformat x y format args st = Some (tt, st1) /\
    bind (set_cursor x y)
         (fun _ => print (until_nul (take 127 (vformat format args)))) st = Some (tt, st2) /\
    this st1 = this st2 /\
    lcd_calls (calls st1) = lcd_calls (calls st2).
Proof.
  split; [done|].
  eexists _, _. split; [apply writeString_run|].
  split; [unfold bind; rewrite set_cursor_run, print_run; reflexivity|].
  rewrite after_after. unfold after, shown. simpl. split; [done|].
  by rewrite !lcd_calls_app.
Qed.

(** X2. A sequence of calls on one object always runs to its end.  The trace
    grows by the calls of each method, in the order of the sequence, the
    member is what these driver calls make of it, and running two sequences
    one after the other is running their concatenation. *)
Theorem call_sequence_composes (ms ms' : list Method) st :
  invoke_all vformat ms st =
    Some {| this := {| lcd := replay (lcd_calls (concat (calls_of vformat <$> ms)))
                                     (lcd (this st)) |};
            calls := calls st ++ concat (calls_of vformat <$> ms) |} /\
  invoke_all vformat (ms ++ ms') st =
    match invoke_all vformat ms st with
    | Some st' => invoke_all vformat ms' st'
    | None => None
    end.
Proof.
  split; [apply invoke_all_closed|].
  rewrite !invoke_all_closed, after_after.
  by rewrite fmap_app, concat_app, lcd_calls_app.
Qed.


End Composition.

(** X7. The calls a method makes are fixed by its arguments alone: they are
    the same from every state of the object, after every history of calls,
    and on every driver. *)
Theorem calls_depend_on_arguments_only
    (D1 D2 : Type) `{!LiquidCrystal_I2C D1} `{!LiquidCrystal_I2C D2}
    (vformat : formatter) (m : Method) (st1 : State D1) (st2 : State D2) :
  issued vformat m st1 = issued vformat m st2.
Proof. by rewrite !issued_calls_of. Qed.

(** ** The text of a formatted write *)

Section FormattedText.

Context {D : Type} `{!LiquidCrystal_I2C D}.
Variable vformat : formatter.

Implicit Types (st : State D) (x y : Z) (format : string) (args : va_list)
  (cs pre post : list ascii).

Lemma until_nul_prefix cs :
  exists rest, cs = list_ascii_of_string (until_nul cs) ++ rest.
Proof.
  induction cs as [|c cs [rest IH]]; simpl.
  - by exists [].
  - case_decide.
    + by exists (c :: cs).
    + exists rest. simpl. by rewrite <- IH.
Qed.

Lemma until_nul_no_nul cs : NUL ∉ list_ascii_of_string (until_nul cs).
Proof.
  induction cs as [|c cs IH]; simpl.
  - apply not_elem_of_nil.
  - case_decide; simpl.
    + apply not_elem_of_nil.
    + apply not_elem_of_cons. split; [congruence|done].
Qed.

Lemma until_nul_app_nul pre post :
  NUL ∉ pre -> until_nul (pre ++ NUL :: post) = string_of_list_ascii pre.
Proof.
  induction pre as [|c pre IH]; simpl.
  - done.
  - intros [Hc Hpre]%not_elem_of_cons.
    rewrite decide_False by done. by rewrite IH.
Qed.

(** X4. The text [writeString] prints never holds anything the formatter did
    not produce: it is a beginning of the formatted output, of at most 127
    characters, without a [NUL]. *)
Theorem writeString_shows_prefix x y format args st :
  exists (text : string) (rest : list ascii),
    lcd_calls (issued vformat (m_writeString x y format args) st) =
      [c_setCursor x y; c_print text] /\
    vformat format args = list_ascii_of_string text ++ rest /\
    (String.length text <= 127)%nat /\
    NUL ∉ list_ascii_of_string text.
Proof.
  destruct (until_nul_prefix (take 127 (vformat format args))) as [rest Hrest].
  exists (shown vformat format args), (rest ++ drop 127 (vformat format args)).
  split; [by rewrite issued_calls_of|]. split.
  - rewrite app_assoc. unfold shown. rewrite <- Hrest. by rewrite take_drop.
  - split; [|apply until_nul_no_nul].
    unfold shown. etrans; [apply until_nul_length|]. rewrite length_take. lia.
Qed.

(** X3. An output of at most 127 characters without a [NUL] is printed
    whole, whatever [x] is: the value [vsnprintf] returns is below 128, and
    the driver's [print] gets every character of the output. *)
Theorem writeString_fits_shows_all x y format args st :
  (length (vformat format args) <= 127)%nat ->
  NUL ∉ vformat format args ->
  exists (buffer : carray) (n : Z) (st' : State D),
    vsnprintf vformat (uninitialized 128) 128 format args = Some (buffer, n) /\
    n < 128 /\
    c_str buffer = Some (string_of_list_ascii (vformat format args)) /\
    writeString vformat x y format args st = Some (tt, st') /\
    lcd_calls (drop (length (calls st)) (calls st')) =
      [c_setCursor x y; c_print (string_of_list_ascii (vformat format args))].
Proof.
  intros Hlen Hnul.
  assert (Hshown : shown vformat format args = string_of_list_ascii (vformat format args)).
  { unfold shown. rewrite take_ge by lia. by apply until_nul_all. }
  destruct (formatted_array vformat format args) as (buffer & n & Hv & _ & Hstr).
  exists buffer, n. eexists. split; [done|]. split.
  { rewrite writeString_buffer in Hv. injection Hv as _ <-. lia. }
  split; [by rewrite <- Hshown|].
  split; [apply writeString_run|].
  unfold after. simpl. rewrite drop_app_length. by rewrite Hshown.
Qed.

(** X5. A [NUL] in the formatted output ends the text on the display: when
    the output is [pre], a [NUL] and [post], with no [NUL] in [pre] and [pre]
    of at most 127 characters, the driver's [print] gets [pre] and nothing
    of [post]. *)
Theorem writeString_cut_at_nul x y format args pre post st :
  vformat format args = pre ++ NUL :: post ->
  NUL ∉ pre ->
  (length pre <= 127)%nat ->
  exists st' : State D,
    writeString vformat x y format args st = Some (tt, st') /\
    lcd_calls (drop (length (calls st)) (calls st')) =
      [c_setCursor x y; c_print (string_of_list_ascii pre)].
Proof.
  intros Hout Hnul Hlen.
  assert (Hshown : shown vformat format args = string_of_list_ascii pre).
  { unfold shown. rewrite Hout, take_app, (take_ge pre) by lia.
    destruct (127 - length pre)%nat as [|k]; simpl.
    - rewrite app_nil_r. by apply until_nul_all.
    - by apply until_nul_app_nul. }
  eexists. split; [apply writeString_run|].
  unfold after. simpl. rewrite drop_app_length. by rewrite Hshown.
Qed.

End FormattedText.

(** ** Copies of the driver object *)

Section Copies.

Context {D : Type} `{!LiquidCrystal_I2C D}.
Variable vformat : formatter.

Implicit Types (w : World D) (o : LCD_Display D) (self a : positive).

(** A call on the wrapper leaves the other objects of the memory alone. *)
Lemma call_method_frame self o (m : Method) w :
  heap w !! self = Some (obj_wrapper o) ->
  exists (r : option positive) w',
    call_method vformat self m w = Some (r, w') /\
    heap w' !! self =
      Some (obj_wrapper {| lcd := replay (lcd_calls (calls_of vformat m)) (lcd o) |}) /\
    forall b, b ≠ self -> is_Some (heap w !! b) -> heap w' !! b = heap w !! b.
Proof.
  intros Hself.
  destruct m.
  1: { destruct (get_lcd_in_memory vformat self o w Hself)
         as (a & w' & Hcall & Hne & Hnone & Hs & _ & _ & Hframe).
       exists (Some a), w'. split; [done|]. split; [by destruct o|].
       intros b Hb [v Hv]. apply Hframe; [done|]. intros ->. congruence. }
  all: unfold call_method; rewrite Hself, invoke_run; simpl;
    eexists None, _; (split; [done|]); simpl;
    (split; [apply lookup_insert_eq|]);
    intros b Hb _; by apply lookup_insert_ne.
Qed.

(** X8. A copy taken with [get_lcd()] is a snapshot: whatever method is
    called on the wrapper afterwards, the call returns, the wrapper's member
    moves on by the driver calls of that method, and the copy stays what the
    member was when it was taken. *)
Theorem get_lcd_snapshot self o w :
  heap w !! self = Some (obj_wrapper o) ->
  exists a w1,
    call_method vformat self m_get_lcd w = Some (Some a, w1) /\
    forall m : Method,
      exists (r : option positive) w2,
        call_method vformat self m w1 = Some (r, w2) /\
        heap w2 !! a = Some (obj_driver (lcd o)) /\
        heap w2 !! self =
          Some (obj_wrapper {| lcd := replay (lcd_calls (calls_of vformat m)) (lcd o) |}).
Proof.
  intros Hself.
  destruct (get_lcd_in_memory vformat self o w Hself)
    as (a & w1 & Hcall & Hne & _ & Hs & Ha & _ & _).
  exists a, w1. split; [done|]. intros m.
  destruct (call_method_frame self o m w1 Hs) as (r & w2 & Hcall2 & Hs2 & Hframe).
  exists r, w2. split; [done|]. split; [|done].
  rewrite Hframe; [done|done|by eexists].
Qed.

End Copies.

(** ** The added properties on the reference driver *)

(** [writeString(2, 0, "v=%d", 7)] prints "v=7". *)
Lemma writeString_fits_shows_all_witness :
  (length (printf_reference "v=%d" [va_int 7]) <= 127)%nat /\
  (NUL ∉ printf_reference "v=%d" [va_int 7]) /\
  exists st' : State SimLCD,
    writeString printf_reference 2 0 "v=%d" [va_int 7] LCD_Display_new = Some (tt, st') /\
    lcd_calls (drop (length (calls (LCD_Display_new (D := SimLCD)))) (calls st')) =
      [c_setCursor 2 0;
       c_print (string_of_list_ascii (printf_reference "v=%d" [va_int 7]))].
Proof.
  assert (Hlen : (length (printf_reference "v=%d" [va_int 7]) <= 127)%nat)
    by (vm_compute; lia).
  assert (Hnul : NUL ∉ printf_reference "v=%d" [va_int 7]).
  { vm_compute. intros Hin.
    repeat (apply elem_of_cons in Hin as [Heq|Hin]; [discriminate Heq|]).
    by apply elem_of_nil in Hin. }
  split; [exact Hlen|]. split; [exact Hnul|].
  destruct (writeString_fits_shows_all printf_reference 2 0 "v=%d" [va_int 7]
              (LCD_Display_new (D := SimLCD)) Hlen Hnul)
    as (buffer & n & st' & _ & _ & _ & Hrun & Hcalls).
  exists st'. split; [exact Hrun|exact Hcalls].
Defined.

(** [writeString(0, 0, "ab%cde", 0)] prints "ab". *)
Lemma writeString_cut_at_nul_witness :
  printf_reference "ab%cde" [va_int 0] =
    ["a"%char; "b"%char] ++ NUL :: ["d"%char; "e"%char] /\
  (NUL ∉ ["a"%char; "b"%char]) /\
  (length ["a"%char; "b"%char] <= 127)%nat /\
  exists st' : State SimLCD,
    writeString printf_reference 0 0 "ab%cde" [va_int 0] LCD_Display_new = Some (tt, st') /\
    lcd_calls (drop (length (calls (LCD_Display_new (D := SimLCD)))) (calls st')) =
      [c_setCursor 0 0; c_print "ab"].
Proof.
  assert (Hout : printf_reference "ab%cde" [va_int 0] =
            ["a"%char; "b"%char] ++ NUL :: ["d"%char; "e"%char]) by reflexivity.
  assert (Hnul : NUL ∉ ["a"%char; "b"%char]).
  { intros Hin.
    repeat (apply elem_of_cons in Hin as [Heq|Hin]; [discriminate Heq|]).
    by apply elem_of_nil in Hin. }
  assert (Hlen : (length ["a"%char; "b"%char] <= 127)%nat) by (simpl; lia).
  split; [exact Hout|]. split; [exact Hnul|]. split; [exact Hlen|].
  apply (writeString_cut_at_nul printf_reference 0 0 "ab%cde" [va_int 0]
           ["a"%char; "b"%char] ["d"%char; "e"%char]
           (LCD_Display_new (D := SimLCD)) Hout Hnul Hlen).
Defined.

(** A copy taken from the wrapper at address 1 survives a later [print]. *)
Lemma get_lcd_snapshot_witness :
  heap world0 !! 1%positive = Some (obj_wrapper (this LCD_Display_new)) /\
  exists (a : positive) (w1 : World SimLCD),
    call_method printf_reference 1 m_get_lcd world0 = Some (Some a, w1) /\
    exists (r : option positive) (w2 : World SimLCD),
      call_method printf_reference 1 (m_print "hi") w1 = Some (r, w2) /\
      heap w2 !! a = Some (obj_driver (lcd_new 0x27 20 4)).
Proof.
  assert (Hself : heap world0 !! 1%positive = Some (obj_wrapper (this LCD_Display_new)))
    by reflexivity.
  split; [exact Hself|].
  destruct (get_lcd_snapshot printf_reference 1 _ world0 Hself) as (a & w1 & Hcall & Hlater).
  exists a, w1. split; [exact Hcall|].
  destruct (Hlater (m_print "hi")) as (r & w2 & Hcall2 & Hcopy & _).
  exists r, w2. split; [exact Hcall2|exact Hcopy].
Defined.
